(** * Semaforo_2.c: push-button triggered three-LED sequence

    A shallow embedding of the firmware in [src/Semaforo_2.c]: the two
    globals [sequence_active] and [step], the debounce routine
    [botao_pressionado_debounce], the one-shot alarm handler
    [alarm_callback] and the body of the main loop.

    The SDK calls the program makes ([gpio_put], [gpio_get], [sleep_ms],
    [add_alarm_in_ms], [printf], the pin set-up calls) are modelled by
    their effect on an explicit machine state: the output latches, the
    pool of pending one-shot alarms, a millisecond clock, and a
    chronological log of every call.  The button line is an oracle giving
    the level returned by the k-th call of [gpio_get]. *)

From Stdlib Require Import ZArith String.
From stdpp Require Import base list gmap.

(** ** Pin assignment (the #define block) *)

Definition LED_VERMELHO : nat := 13.
Definition LED_AZUL : nat := 12.
Definition LED_VERDE : nat := 11.
Definition BOTAO : nat := 5.

(** ** Machine state *)

(** One entry per SDK call, in program order. *)
Inductive event : Type :=
  | EvStdioInit
  | EvGpioInit (pin : nat)
  | EvGpioDir (pin : nat) (out : bool)
  | EvPullUp (pin : nat)
  | EvPut (pin : nat) (level : bool)
  | EvGet (pin : nat) (level : bool)
  | EvSleep (ms : nat)
  | EvAlarm (ms : nat)
  | EvPrintf (msg : string).

Record Machine : Type := mkMachine {
  sequence_active : bool;      (* static bool sequence_active *)
  step : Z;                    (* static int step *)
  gpio : gmap nat bool;        (* output latch of every pin written so far *)
  alarms : list nat;           (* due times of the pending one-shot alarms *)
  clock : nat;                 (* milliseconds slept so far *)
  reads : nat;                 (* number of gpio_get calls made so far *)
  trace : list event           (* log of SDK calls, oldest first *)
}.

(** The state at reset: the two static initialisers, nothing written. *)
Definition boot : Machine :=
  mkMachine false 0%Z ∅ [] 0 0 [].

Definition set_sequence_active (b : bool) (m : Machine) : Machine :=
  mkMachine b (step m) (gpio m) (alarms m) (clock m) (reads m) (trace m).

Definition set_step (z : Z) (m : Machine) : Machine :=
  mkMachine (sequence_active m) z (gpio m) (alarms m) (clock m) (reads m) (trace m).

Definition emit (e : event) (m : Machine) : Machine :=
  mkMachine (sequence_active m) (step m) (gpio m) (alarms m) (clock m) (reads m)
            (trace m ++ [e]).

(** Statement sequencing for state transformers. *)
Definition seq_cmd (c1 c2 : Machine → Machine) : Machine → Machine :=
  λ m, c2 (c1 m).

Notation "c1 >> c2" := (seq_cmd c1 c2) (at level 61, left associativity).

(** ** SDK calls *)

Definition stdio_init_all : Machine → Machine := emit EvStdioInit.
Definition gpio_init (pin : nat) : Machine → Machine := emit (EvGpioInit pin).
Definition gpio_set_dir (pin : nat) (out : bool) : Machine → Machine :=
  emit (EvGpioDir pin out).
Definition gpio_pull_up (pin : nat) : Machine → Machine := emit (EvPullUp pin).
Definition printf (msg : string) : Machine → Machine := emit (EvPrintf msg).

Definition gpio_put (pin : nat) (level : bool) (m : Machine) : Machine :=
  mkMachine (sequence_active m) (step m) (<[pin := level]> (gpio m)) (alarms m)
            (clock m) (reads m) (trace m ++ [EvPut pin level]).

Definition sleep_ms (ms : nat) (m : Machine) : Machine :=
  mkMachine (sequence_active m) (step m) (gpio m) (alarms m)
            (clock m + ms) (reads m) (trace m ++ [EvSleep ms]).

(** [add_alarm_in_ms(ms, alarm_callback, NULL, false)]: the program has a
    single handler, so a pending alarm is represented by its due time. *)
Definition add_alarm_in_ms (ms : nat) (m : Machine) : Machine :=
  mkMachine (sequence_active m) (step m) (gpio m) (alarms m ++ [clock m + ms])
            (clock m) (reads m) (trace m ++ [EvAlarm ms]).

Definition GPIO_OUT : bool := true.
Definition GPIO_IN : bool := false.

Section Firmware.

(** Level of the button line at the k-th sample taken by the program.
    With the pull-up, [true] ('1') is released and [false] ('0') pressed. *)
Variable botao : nat → bool.

Definition gpio_get (pin : nat) (m : Machine) : bool * Machine :=
  let v := botao (reads m) in
  (v, mkMachine (sequence_active m) (step m) (gpio m) (alarms m)
                (clock m) (S (reads m)) (trace m ++ [EvGet pin v])).

(** ** botao_pressionado_debounce *)

(** [while (gpio_get(BOTAO) == 0) sleep_ms(10);]  The loop has no bound in
    the source; [fuel] bounds the number of samples and [None] means the
    bound was reached with the line still pressed. *)
Fixpoint wait_release (fuel : nat) (m : Machine) : option Machine :=
  match fuel with
  | O => None
  | S fuel' =>
      let (v, m1) := gpio_get BOTAO m in
      if negb v then wait_release fuel' (sleep_ms 10 m1) else Some m1
  end.

Definition botao_pressionado_debounce (fuel : nat) (m : Machine)
  : option (bool * Machine) :=
  let (v0, m0) := gpio_get BOTAO m in
  if v0 then Some (false, m0)                    (* gpio_get(BOTAO) != 0 *)
  else
    let m1 := sleep_ms 50 m0 in
    let (v1, m2) := gpio_get BOTAO m1 in
    if negb v1 then                              (* gpio_get(BOTAO) == 0 *)
      match wait_release fuel m2 with
      | Some m3 => Some (true, m3)
      | None => None
      end
    else Some (false, m2).

(** ** alarm_callback *)

(** The [switch] has cases 1, 2 and 3 and no [default]; the handler always
    returns [false], i.e. 0: the alarm is not rescheduled by the SDK. *)
Definition alarm_callback (m : Machine) : Z * Machine :=
  let m' :=
    match step m with
    | 1%Z =>
        (gpio_put LED_VERMELHO true >> gpio_put LED_AZUL true >>
         gpio_put LED_VERDE false >>
         printf "Callback: 2 LEDs ligados.\n" >>
         set_step 2 >> add_alarm_in_ms 3000) m
    | 2%Z =>
        (gpio_put LED_VERMELHO true >> gpio_put LED_AZUL false >>
         gpio_put LED_VERDE false >>
         printf "Callback: 1 LED ligado.\n" >>
         set_step 3 >> add_alarm_in_ms 3000) m
    | 3%Z =>
        (gpio_put LED_VERMELHO false >> gpio_put LED_AZUL false >>
         gpio_put LED_VERDE false >>
         printf "Callback: TODOS LEDs desligados.\n" >>
         set_step 0 >> set_sequence_active false) m
    | _ => m
    end in
  (0%Z, m').

(** ** main *)

(** Everything [main] does before entering the loop. *)
Definition main_init : Machine → Machine :=
  stdio_init_all >>
  gpio_init LED_VERMELHO >> gpio_set_dir LED_VERMELHO GPIO_OUT >>
  gpio_init LED_AZUL >> gpio_set_dir LED_AZUL GPIO_OUT >>
  gpio_init LED_VERDE >> gpio_set_dir LED_VERDE GPIO_OUT >>
  gpio_init BOTAO >> gpio_set_dir BOTAO GPIO_IN >> gpio_pull_up BOTAO >>
  gpio_put LED_VERMELHO false >> gpio_put LED_AZUL false >>
  gpio_put LED_VERDE false >>
  printf "Sistema iniciado. Aguardando clique no botao (pull-up)...\n".

(** The block guarded by the [if] in the loop. *)
Definition start_sequence : Machine → Machine :=
  set_sequence_active true >> set_step 1 >>
  gpio_put LED_VERMELHO true >> gpio_put LED_AZUL true >>
  gpio_put LED_VERDE true >>
  printf "Botao pressionado: 3 LEDs ligados (iniciando sequencia).\n" >>
  add_alarm_in_ms 3000.

(** One iteration of [while (true) { ... }].  The [&&] is evaluated left
    to right: the debounce routine is called only if [!sequence_active]
    holds. *)
Definition main_loop_body (fuel : nat) (m : Machine) : option Machine :=
  if negb (sequence_active m) then
    match botao_pressionado_debounce fuel m with
    | Some (true, m1) => Some (sleep_ms 10 (start_sequence m1))
    | Some (false, m1) => Some (sleep_ms 10 m1)
    | None => None
    end
  else Some (sleep_ms 10 m).

(** ** The alarm pool and the runs of the system *)

(** Delivery of the i-th pending alarm: the SDK removes it from the pool
    and calls the handler; as the handler returns 0 it is not re-queued. *)
Definition pop_alarm (i : nat) (m : Machine) : Machine :=
  mkMachine (sequence_active m) (step m) (gpio m) (delete i (alarms m))
            (clock m) (reads m) (trace m).

Definition fire_alarm (i : nat) (m : Machine) : option Machine :=
  match alarms m !! i with
  | Some _ => Some (snd (alarm_callback (pop_alarm i m)))
  | None => None
  end.

(** What can happen next: the main loop completes an iteration, or a
    pending alarm is delivered.  Delivery is not tied to the clock: every
    delivery schedule is a run.  A delivery is placed between two
    iterations: an iteration that finds [sequence_active] set reads
    nothing else and sleeps, and the one that starts a sequence arms the
    alarm with its last statement, so a delivery that interrupts an
    iteration has the effect of one placed just before or just after
    it. *)
Inductive action : Type :=
  | Loop (fuel : nat)
  | Fire (i : nat).

Definition sys_step (a : action) (m : Machine) : option Machine :=
  match a with
  | Loop fuel => main_loop_body fuel m
  | Fire i => fire_alarm i m
  end.

Fixpoint run (sched : list action) (m : Machine) : option Machine :=
  match sched with
  | [] => Some m
  | a :: sched' =>
      match sys_step a m with
      | Some m' => run sched' m'
      | None => None
      end
  end.

Inductive reachable : Machine → Prop :=
  | reach_init : reachable (main_init boot)
  | reach_step a m m' : reachable m → sys_step a m = Some m' → reachable m'.

End Firmware.

(** ** Observations *)

(** Levels of the three LED outputs, in the order red, blue, green. *)
Definition leds (m : Machine) : list (option bool) :=
  [gpio m !! LED_VERMELHO; gpio m !! LED_AZUL; gpio m !! LED_VERDE].

Definition on : option bool := Some true.
Definition off : option bool := Some false.

Definition is_put (e : event) : bool :=
  match e with EvPut _ _ => true | _ => false end.
Definition is_get (e : event) : bool :=
  match e with EvGet _ _ => true | _ => false end.
Definition is_alarm (e : event) : bool :=
  match e with EvAlarm _ => true | _ => false end.

(** Number of [add_alarm_in_ms] calls in a stretch of the log. *)
Definition alarms_armed (evs : list event) : nat :=
  length (List.filter is_alarm evs).

(** The output writes in a stretch of the log. *)
Definition puts (evs : list event) : list event := List.filter is_put evs.

(** The input samples in a stretch of the log. *)
Definition gets (evs : list event) : list event := List.filter is_get evs.

(** The three writes every phase change makes, in program order. *)
Definition put_leds (a b c : bool) : list event :=
  [EvPut LED_VERMELHO a; EvPut LED_AZUL b; EvPut LED_VERDE c].

(** Effect of a phase change: new globals, three LED writes, one message
    and, if [arm] is set, one alarm 3000 ms ahead. *)
Definition phase_update (act : bool) (st : Z) (a b c : bool) (msg : string)
    (arm : bool) (m : Machine) : Machine :=
  mkMachine act st
    (<[LED_VERDE := c]> (<[LED_AZUL := b]> (<[LED_VERMELHO := a]> (gpio m))))
    (alarms m ++ (if arm then [clock m + 3000] else []))
    (clock m) (reads m)
    (trace m ++ put_leds a b c ++ EvPrintf msg :: (if arm then [EvAlarm 3000] else [])).

(** The sequencer is idle, or in one of the three phases with exactly one
    alarm pending. *)
Definition idle (m : Machine) : Prop :=
  step m = 0%Z ∧ sequence_active m = false ∧ alarms m = [].

Definition in_phase (m : Machine) : Prop :=
  (step m = 1%Z ∨ step m = 2%Z ∨ step m = 3%Z) ∧
  sequence_active m = true ∧ ∃ due, alarms m = [due].

Definition seq_inv (m : Machine) : Prop := idle m ∨ in_phase m.

(** A machine that differs from [m] only by time having passed, samples
    having been taken and calls having been logged. *)
Definition advance (dt dr : nat) (evs : list event) (m : Machine) : Machine :=
  mkMachine (sequence_active m) (step m) (gpio m) (alarms m)
            (clock m + dt) (reads m + dr) (trace m ++ evs).

(** Calls made by the release loop when the line is read pressed [k]
    times and then released. *)
Definition poll_events (k : nat) : list event :=
  concat (replicate k [EvGet BOTAO false; EvSleep 10]) ++ [EvGet BOTAO true].

Definition confirm_events : list event :=
  [EvGet BOTAO false; EvSleep 50; EvGet BOTAO false].

(** ** Further observations *)

Definition is_sleep (e : event) : bool :=
  match e with EvSleep _ => true | _ => false end.

(** The [sleep_ms] calls in a stretch of the log. *)
Definition sleeps (evs : list event) : list event := List.filter is_sleep evs.

(** The LED levels each value of [step] goes with: the writes that
    accompany the assignment of that value, in [main] for 1 and in the
    handler for 2, 3 and 0, and the start-up writes for the initial 0. *)
Definition phase_pattern (st : Z) : list (option bool) :=
  match st with
  | 1%Z => [on; on; on]
  | 2%Z => [on; on; off]
  | 3%Z => [on; off; off]
  | _ => [off; off; off]
  end.

(** The pins the program drives. *)
Definition led_pins : gset nat := {[LED_VERMELHO; LED_AZUL; LED_VERDE]}.

Definition is_loop (a : action) : bool :=
  match a with Loop _ => true | Fire _ => false end.

(** Number of loop iterations in a schedule. *)
Definition loops_in (sched : list action) : nat :=
  length (List.filter is_loop sched).

(** ** Sample button lines *)

(** Never touched. *)
Definition released_input : nat → bool := λ _, true.

(** Held down for ever. *)
Definition held_input : nat → bool := λ _, false.

(** One pressed sample, released from the second sample on: a bounce. *)
Definition noise_input : nat → bool := λ k, 1 <=? k.

(** Pressed for the first four samples, released afterwards: a click. *)
Definition click_input : nat → bool := λ k, 4 <=? k.

(** The machine right after the click of [click_input] has been taken at
    start-up: two confirmation samples, two pressed samples in the loop,
    the released one, then the start of the sequence. *)
Definition after_click : Machine :=
  sleep_ms 10
    (start_sequence (advance 70 5 (confirm_events ++ poll_events 2) (main_init boot))).

(** * Basic facts *)

Lemma Machine_eq (m1 m2 : Machine) :
  sequence_active m1 = sequence_active m2 → step m1 = step m2 →
  gpio m1 = gpio m2 → alarms m1 = alarms m2 → clock m1 = clock m2 →
  reads m1 = reads m2 → trace m1 = trace m2 → m1 = m2.
Proof. destruct m1, m2; simpl; intros; subst; reflexivity. Qed.

(** Restate the index of the sample the goal is about. *)
Ltac reindex n :=
  match goal with
  | |- _ ?x = _ => replace x with n by lia
  end.

Ltac machine_eq :=
  apply Machine_eq; simpl; try reflexivity; try lia;
  rewrite <- ?(assoc_L (++)); simpl; try reflexivity.

Lemma advance_advance dt dr evs dt' dr' evs' m :
  advance dt' dr' evs' (advance dt dr evs m)
  = advance (dt + dt') (dr + dr') (evs ++ evs') m.
Proof. unfold advance. machine_eq. Qed.

Lemma poll_events_S k :
  poll_events (S k) = EvGet BOTAO false :: EvSleep 10 :: poll_events k.
Proof. reflexivity. Qed.

Lemma poll_events_no_put k : forallb (λ e, negb (is_put e)) (poll_events k) = true.
Proof. induction k as [|k IH]; [reflexivity | rewrite poll_events_S; exact IH]. Qed.

Lemma poll_events_no_alarm k : forallb (λ e, negb (is_alarm e)) (poll_events k) = true.
Proof. induction k as [|k IH]; [reflexivity | rewrite poll_events_S; exact IH]. Qed.

(** The first released sample at or after a given one. *)
Lemma first_release (botao : nat → bool) :
  ∀ k r, botao (r + k) = true →
  ∃ k0, k0 ≤ k ∧ botao (r + k0) = true ∧ ∀ j, j < k0 → botao (r + j) = false.
Proof.
  induction k as [|k IH]; intros r Hk.
  - exists 0. split; [lia | split; [exact Hk | intros j Hj; lia]].
  - destruct (botao r) eqn:Hr.
    + exists 0. rewrite Nat.add_0_r. split; [lia | split; [exact Hr | intros j Hj; lia]].
    + destruct (IH (S r)) as (k0 & Hle & Hrel & Hpre).
      { replace (S r + k) with (r + S k) by lia. exact Hk. }
      exists (S k0). split; [lia | split].
      * replace (r + S k0) with (S r + k0) by lia. exact Hrel.
      * intros [|j] Hj; [rewrite Nat.add_0_r; exact Hr |].
        replace (r + S j) with (S r + j) by lia. apply Hpre. lia.
Qed.

(** ** The release loop *)

Section ReleaseLoop.

Variable botao : nat → bool.

Lemma wait_release_released :
  ∀ k fuel m,
    k < fuel →
    (∀ j, j < k → botao (reads m + j) = false) →
    botao (reads m + k) = true →
    wait_release botao fuel m = Some (advance (10 * k) (S k) (poll_events k) m).
Proof.
  induction k as [|k IH]; intros [|fuel] m Hf Hpre Hrel; try lia.
  - rewrite Nat.add_0_r in Hrel. simpl. rewrite Hrel. simpl.
    f_equal. unfold advance. machine_eq.
  - assert (H0 : botao (reads m) = false).
    { rewrite <- (Nat.add_0_r (reads m)). apply Hpre. lia. }
    simpl. rewrite H0. simpl.
    rewrite (IH fuel); simpl; [| lia | |].
    + f_equal. unfold advance. rewrite poll_events_S. machine_eq.
    + intros j Hj. replace (S (reads m + j)) with (reads m + S j) by lia.
      apply Hpre. lia.
    + replace (S (reads m + k)) with (reads m + S k) by lia. exact Hrel.
Qed.

Lemma wait_release_pressed :
  ∀ fuel m,
    (∀ j, j < fuel → botao (reads m + j) = false) →
    wait_release botao fuel m = None.
Proof.
  induction fuel as [|fuel IH]; intros m Hpre; [reflexivity |].
  assert (H0 : botao (reads m) = false).
  { rewrite <- (Nat.add_0_r (reads m)). apply Hpre. lia. }
  simpl. rewrite H0. simpl. apply IH. simpl. intros j Hj.
  replace (S (reads m + j)) with (reads m + S j) by lia. apply Hpre. lia.
Qed.

Lemma wait_release_inv :
  ∀ fuel m m',
    wait_release botao fuel m = Some m' →
    ∃ k, k < fuel ∧ (∀ j, j < k → botao (reads m + j) = false) ∧
         botao (reads m + k) = true ∧
         m' = advance (10 * k) (S k) (poll_events k) m.
Proof.
  intros fuel m m' Hw.
  destruct (forallb (λ j, negb (botao (reads m + j))) (seq 0 fuel)) eqn:Hall.
  - rewrite wait_release_pressed in Hw; [discriminate |].
    intros j Hj. rewrite forallb_forall in Hall.
    specialize (Hall j). rewrite in_seq in Hall.
    apply negb_true_iff, Hall. lia.
  - assert (Hex : ∃ j, j < fuel ∧ botao (reads m + j) = true).
    { apply not_true_iff_false in Hall.
      destruct (existsb (λ j, botao (reads m + j)) (seq 0 fuel)) eqn:Hex.
      - apply existsb_exists in Hex as (j & Hin & Hj).
        apply in_seq in Hin. exists j. split; [lia | exact Hj].
      - exfalso. apply Hall. apply forallb_forall. intros j Hin.
        apply negb_true_iff. apply not_true_iff_false. intros Hj.
        apply not_true_iff_false in Hex. apply Hex.
        apply existsb_exists. exists j. split; assumption. }
    destruct Hex as (j & Hj & Hrel).
    destruct (first_release botao j (reads m) Hrel) as (k & Hle & Hk & Hpre).
    exists k. split; [lia | split; [exact Hpre | split; [exact Hk |]]].
    rewrite (wait_release_released k) in Hw; [congruence | lia | exact Hpre | exact Hk].
Qed.

End ReleaseLoop.

(** ** The debounce routine, case by case *)

Section Debounce.

Variable botao : nat → bool.

Lemma debounce_released fuel m :
  botao (reads m) = true →
  botao_pressionado_debounce botao fuel m
  = Some (false, advance 0 1 [EvGet BOTAO true] m).
Proof.
  intros H. unfold botao_pressionado_debounce. simpl. rewrite H.
  do 2 f_equal. unfold advance. machine_eq.
Qed.

Lemma debounce_noise fuel m :
  botao (reads m) = false → botao (S (reads m)) = true →
  botao_pressionado_debounce botao fuel m
  = Some (false, advance 50 2 [EvGet BOTAO false; EvSleep 50; EvGet BOTAO true] m).
Proof.
  intros H0 H1. unfold botao_pressionado_debounce. simpl. rewrite H0, H1. simpl.
  do 2 f_equal. unfold advance. machine_eq.
Qed.

Lemma debounce_click fuel m k :
  botao (reads m) = false → botao (S (reads m)) = false →
  (∀ j, j < k → botao (reads m + 2 + j) = false) →
  botao (reads m + 2 + k) = true →
  k < fuel →
  botao_pressionado_debounce botao fuel m
  = Some (true, advance (50 + 10 * k) (3 + k) (confirm_events ++ poll_events k) m).
Proof.
  intros H0 H1 Hpre Hrel Hf.
  unfold botao_pressionado_debounce. simpl. rewrite H0, H1. simpl.
  rewrite (wait_release_released botao k); simpl.
  - do 2 f_equal. unfold advance, confirm_events. machine_eq.
  - exact Hf.
  - intros j Hj. reindex (reads m + 2 + j). apply Hpre, Hj.
  - reindex (reads m + 2 + k). exact Hrel.
Qed.

Lemma debounce_held fuel m :
  botao (reads m) = false → botao (S (reads m)) = false →
  (∀ j, j < fuel → botao (reads m + 2 + j) = false) →
  botao_pressionado_debounce botao fuel m = None.
Proof.
  intros H0 H1 Hpre.
  unfold botao_pressionado_debounce. simpl. rewrite H0, H1. simpl.
  rewrite wait_release_pressed; [reflexivity |]. simpl.
  intros j Hj. reindex (reads m + 2 + j). apply Hpre, Hj.
Qed.

(** Whatever the routine returns, it has only sampled and slept. *)
Lemma debounce_inv fuel m b m' :
  botao_pressionado_debounce botao fuel m = Some (b, m') →
  ∃ dt dr evs,
    m' = advance dt dr evs m ∧ 0 < dr ∧
    forallb (λ e, negb (is_put e)) evs = true ∧
    forallb (λ e, negb (is_alarm e)) evs = true.
Proof.
  intros Hd.
  destruct (botao (reads m)) eqn:H0.
  { rewrite debounce_released in Hd by exact H0. injection Hd as <- <-.
    eexists _, _, _. split; [reflexivity | split; [lia | split; reflexivity]]. }
  destruct (botao (S (reads m))) eqn:H1.
  { rewrite debounce_noise in Hd by assumption. injection Hd as <- <-.
    eexists _, _, _. split; [reflexivity | split; [lia | split; reflexivity]]. }
  revert Hd. unfold botao_pressionado_debounce. simpl. rewrite H0, H1. simpl.
  destruct (wait_release _ _ _) as [m3|] eqn:Hw; [| discriminate].
  intros Hd. injection Hd as <- <-.
  apply wait_release_inv in Hw as (k & _ & _ & _ & ->).
  exists (50 + 10 * k), (3 + k), (confirm_events ++ poll_events k).
  split; [unfold advance, confirm_events; machine_eq |].
  split; [lia |].
  rewrite !forallb_app, poll_events_no_put, poll_events_no_alarm.
  split; reflexivity.
Qed.

(** Both confirmation samples pressed: a result is a validated click, and
    it comes with the first released sample of the loop. *)
Lemma debounce_confirmed_inv fuel m r :
  botao (reads m) = false → botao (S (reads m)) = false →
  botao_pressionado_debounce botao fuel m = Some r →
  ∃ k, k < fuel ∧ (∀ j, j < k → botao (reads m + 2 + j) = false) ∧
       botao (reads m + 2 + k) = true ∧
       r = (true, advance (50 + 10 * k) (3 + k) (confirm_events ++ poll_events k) m).
Proof.
  intros H0 H1 Hd.
  destruct (forallb (λ j, negb (botao (reads m + 2 + j))) (seq 0 fuel)) eqn:Hall.
  - rewrite debounce_held in Hd; [discriminate | assumption | assumption |].
    intros j Hj. rewrite forallb_forall in Hall.
    apply negb_true_iff, Hall, in_seq. lia.
  - assert (Hex : ∃ j, j < fuel ∧ botao (reads m + 2 + j) = true).
    { destruct (existsb (λ j, botao (reads m + 2 + j)) (seq 0 fuel)) eqn:Hex.
      - apply existsb_exists in Hex as (j & Hin & Hj).
        apply in_seq in Hin. exists j. split; [lia | exact Hj].
      - exfalso. apply not_true_iff_false in Hall. apply Hall.
        apply forallb_forall. intros j Hin.
        apply negb_true_iff, not_true_iff_false. intros Hj.
        apply not_true_iff_false in Hex. apply Hex.
        apply existsb_exists. exists j. split; assumption. }
    destruct Hex as (j & Hj & Hrel).
    destruct (first_release botao j (reads m + 2) Hrel) as (k & Hle & Hk & Hpre).
    exists k. split; [lia | split; [exact Hpre | split; [exact Hk |]]].
    rewrite (debounce_click fuel m k) in Hd by (assumption || lia).
    congruence.
Qed.

End Debounce.

(** ** The sequencer *)

Lemma leds_phase_update act st a b c msg arm m :
  leds (phase_update act st a b c msg arm m) = [Some a; Some b; Some c].
Proof.
  unfold leds, phase_update, LED_VERMELHO, LED_AZUL, LED_VERDE. simpl.
  by simplify_map_eq.
Qed.

Lemma alarms_armed_app evs1 evs2 :
  alarms_armed (evs1 ++ evs2) = alarms_armed evs1 + alarms_armed evs2.
Proof. unfold alarms_armed. by rewrite List.filter_app, length_app. Qed.

Lemma alarms_armed_none evs :
  forallb (λ e, negb (is_alarm e)) evs = true → alarms_armed evs = 0.
Proof.
  unfold alarms_armed. induction evs as [|e evs IH]; [reflexivity |].
  simpl. intros [He Hr]%andb_true_iff. destruct (is_alarm e); [discriminate | auto].
Qed.

Lemma puts_app evs1 evs2 : puts (evs1 ++ evs2) = puts evs1 ++ puts evs2.
Proof. apply List.filter_app. Qed.

Lemma puts_none evs :
  forallb (λ e, negb (is_put e)) evs = true → puts evs = [].
Proof.
  unfold puts. induction evs as [|e evs IH]; [reflexivity |].
  simpl. intros [He Hr]%andb_true_iff. destruct (is_put e); [discriminate | auto].
Qed.

Lemma start_sequence_eq m :
  start_sequence m
  = phase_update true 1 true true true
      "Botao pressionado: 3 LEDs ligados (iniciando sequencia).\n" true m.
Proof. unfold phase_update. machine_eq. Qed.

(** The four arms of the [switch], the last being the missing [default]. *)
Lemma alarm_callback_cases m :
  (step m = 1%Z ∧
   alarm_callback m
   = (0%Z, phase_update (sequence_active m) 2 true true false
             "Callback: 2 LEDs ligados.\n" true m)) ∨
  (step m = 2%Z ∧
   alarm_callback m
   = (0%Z, phase_update (sequence_active m) 3 true false false
             "Callback: 1 LED ligado.\n" true m)) ∨
  (step m = 3%Z ∧
   alarm_callback m
   = (0%Z, phase_update false 0 false false false
             "Callback: TODOS LEDs desligados.\n" false m)) ∨
  (step m ≠ 1%Z ∧ step m ≠ 2%Z ∧ step m ≠ 3%Z ∧ alarm_callback m = (0%Z, m)).
Proof.
  unfold alarm_callback.
  destruct (step m) as [|[[p|p|]|[p|p|]|]|p] eqn:Hs;
    try (right; right; right; repeat split; first [lia | reflexivity]).
  - right; right; left. split; [reflexivity |]. f_equal.
    unfold phase_update. machine_eq. by rewrite app_nil_r.
  - right; left. split; [reflexivity |]. f_equal. unfold phase_update. machine_eq.
  - left. split; [reflexivity |]. f_equal. unfold phase_update. machine_eq.
Qed.

Section System.

Variable botao : nat → bool.

Lemma main_loop_body_active fuel m :
  sequence_active m = true →
  main_loop_body botao fuel m = Some (sleep_ms 10 m).
Proof. intros H. unfold main_loop_body. by rewrite H. Qed.

Lemma main_loop_body_idle_inv fuel m m' :
  sequence_active m = false →
  main_loop_body botao fuel m = Some m' →
  ∃ b m1, botao_pressionado_debounce botao fuel m = Some (b, m1) ∧
          m' = sleep_ms 10 (if b then start_sequence m1 else m1).
Proof.
  intros H. unfold main_loop_body. rewrite H. simpl.
  destruct (botao_pressionado_debounce _ _ _) as [[[] m1]|]; [| | discriminate];
    intros [= <-]; eexists _, _; split; reflexivity.
Qed.

Lemma fire_alarm_inv i m m' :
  fire_alarm i m = Some m' →
  is_Some (alarms m !! i) ∧ m' = snd (alarm_callback (pop_alarm i m)).
Proof.
  unfold fire_alarm. destruct (alarms m !! i) eqn:Hi; [| discriminate].
  intros [= <-]. split; [eauto | reflexivity].
Qed.

(** In a phase the only pending alarm is the first of the pool, and its
    delivery moves the sequencer on by one phase. *)
Lemma fire_alarm_in_phase i m m' :
  in_phase m → fire_alarm i m = Some m' →
  i = 0 ∧
  ((step m = 1%Z ∧ ∃ msg, m' = phase_update true 2 true true false msg true (pop_alarm 0 m)) ∨
   (step m = 2%Z ∧ ∃ msg, m' = phase_update true 3 true false false msg true (pop_alarm 0 m)) ∨
   (step m = 3%Z ∧ ∃ msg, m' = phase_update false 0 false false false msg false (pop_alarm 0 m))).
Proof.
  intros (Hs & Ha & due & Hal) [[x Hx] ->]%fire_alarm_inv.
  assert (i = 0) as ->.
  { rewrite Hal in Hx. destruct i; [reflexivity | discriminate]. }
  split; [reflexivity |].
  destruct (alarm_callback_cases (pop_alarm 0 m)) as [[H ->]|[[H ->]|[[H ->]|H]]];
    simpl in *.
  - left. rewrite Ha. eauto.
  - right; left. rewrite Ha. eauto.
  - right; right. eauto.
  - lia.
Qed.

Lemma fire_alarm_idle i m : idle m → fire_alarm i m = None.
Proof. intros (_ & _ & Hal). unfold fire_alarm. by rewrite Hal. Qed.

Lemma seq_inv_init : seq_inv (main_init boot).
Proof. left. repeat split. Qed.

Lemma seq_inv_step a m m' :
  seq_inv m → sys_step botao a m = Some m' → seq_inv m'.
Proof.
  intros Hinv Hstep. destruct a as [fuel|i]; simpl in Hstep.
  - destruct Hinv as [(Hs & Ha & Hal)|(Hs & Ha & Hal)].
    + apply main_loop_body_idle_inv in Hstep as (b & m1 & Hd & ->); [| exact Ha].
      apply debounce_inv in Hd as (dt & dr & evs & -> & _).
      destruct b.
      * right. rewrite start_sequence_eq.
        split; [by left | split; [reflexivity | simpl; rewrite Hal; eauto]].
      * left. by repeat split.
    + rewrite main_loop_body_active in Hstep by exact Ha.
      injection Hstep as <-. right. by repeat split.
  - destruct Hinv as [Hidle|Hph].
    + by rewrite fire_alarm_idle in Hstep.
    + pose proof Hph as (_ & _ & due & Hal).
      destruct (fire_alarm_in_phase _ _ _ Hph Hstep)
        as (_ & [(_ & msg & ->)|[(_ & msg & ->)|(_ & msg & ->)]]).
      * right. split; [auto | split; [reflexivity | simpl; rewrite Hal; simpl; eauto]].
      * right. split; [auto | split; [reflexivity | simpl; rewrite Hal; simpl; eauto]].
      * left. split; [reflexivity | split; [reflexivity | simpl; by rewrite Hal]].
Qed.

Lemma reachable_seq_inv m : reachable botao m → seq_inv m.
Proof.
  induction 1 as [|a m m' _ IH Hstep]; [apply seq_inv_init |].
  exact (seq_inv_step a m m' IH Hstep).
Qed.

End System.

(** ** Effect of one step on the log *)

Lemma trace_phase_update act st a b c msg arm m :
  trace (phase_update act st a b c msg arm m)
  = trace m ++ put_leds a b c ++ EvPrintf msg :: (if arm then [EvAlarm 3000] else []).
Proof. reflexivity. Qed.


Section Steps.

Variable botao : nat → bool.

(** An iteration of the loop either leaves the sequencer alone or, from
    idle and on a validated click, enters phase 1. *)
Lemma loop_step_effect fuel m m' :
  seq_inv m → main_loop_body botao fuel m = Some m' →
  ∃ evs, trace m' = trace m ++ evs ∧
    ((step m' = step m ∧ sequence_active m' = sequence_active m ∧
      gpio m' = gpio m ∧ alarms m' = alarms m ∧
      alarms_armed evs = 0 ∧ puts evs = []) ∨
     (idle m ∧ (∃ m1, botao_pressionado_debounce botao fuel m = Some (true, m1)) ∧
      step m' = 1%Z ∧ sequence_active m' = true ∧ leds m' = [on; on; on] ∧
      (∃ due, alarms m' = [due]) ∧
      alarms_armed evs = 1 ∧ puts evs = put_leds true true true)).
Proof.
  intros [Hidle|(Hs & Ha & Hal)] Hstep.
  - pose proof Hidle as (Hs & Ha & Hal).
    apply main_loop_body_idle_inv in Hstep as (b & m1 & Hd & ->); [| exact Ha].
    pose proof Hd as (dt & dr & evs & -> & _ & Hnp & Hna)%debounce_inv.
    destruct b.
    + rewrite start_sequence_eq.
      eexists. split.
      { simpl. rewrite <- !(assoc_L (++)). reflexivity. }
      right. split; [exact Hidle | split; [eauto |]].
      split; [reflexivity | split; [reflexivity |]].
      split; [apply (leds_phase_update true 1 true true true _ true) |].
      split; [simpl; rewrite Hal; eauto |].
      rewrite alarms_armed_app, puts_app, (alarms_armed_none evs Hna), (puts_none evs Hnp).
      split; reflexivity.
    + eexists. split.
      { simpl. rewrite <- !(assoc_L (++)). reflexivity. }
      left. repeat split; try reflexivity.
      * rewrite alarms_armed_app, (alarms_armed_none evs Hna). reflexivity.
      * rewrite puts_app, (puts_none evs Hnp). reflexivity.
  - rewrite main_loop_body_active in Hstep by exact Ha. injection Hstep as <-.
    exists [EvSleep 10]. split; [reflexivity |]. left. by repeat split.
Qed.

(** A delivery in a reachable state moves the sequencer on by one phase. *)
Lemma fire_step_effect i m m' :
  seq_inv m → fire_alarm i m = Some m' →
  ∃ evs, trace m' = trace m ++ evs ∧
    ((step m = 1%Z ∧ step m' = 2%Z ∧ sequence_active m' = true ∧
      leds m' = [on; on; off] ∧ (∃ due, alarms m' = [due]) ∧
      alarms_armed evs = 1 ∧ puts evs = put_leds true true false) ∨
     (step m = 2%Z ∧ step m' = 3%Z ∧ sequence_active m' = true ∧
      leds m' = [on; off; off] ∧ (∃ due, alarms m' = [due]) ∧
      alarms_armed evs = 1 ∧ puts evs = put_leds true false false) ∨
     (step m = 3%Z ∧ step m' = 0%Z ∧ sequence_active m' = false ∧
      leds m' = [off; off; off] ∧ alarms m' = [] ∧
      alarms_armed evs = 0 ∧ puts evs = put_leds false false false)).
Proof.
  intros [Hidle|Hph] Hstep; [by rewrite fire_alarm_idle in Hstep |].
  pose proof Hph as (_ & _ & due & Hal).
  destruct (fire_alarm_in_phase _ _ _ Hph Hstep)
    as (_ & [(Hs & msg & ->)|[(Hs & msg & ->)|(Hs & msg & ->)]]);
    rewrite trace_phase_update;
    match goal with
    | |- ∃ evs, _ ++ ?new = _ ++ evs ∧ _ => exists new
    end;
    (split; [reflexivity |]);
    rewrite leds_phase_update; simpl; rewrite Hal; simpl.
  - left. repeat split; eauto.
  - right; left. repeat split; eauto.
  - right; right. repeat split; eauto.
Qed.

Lemma reachable_run sched :
  ∀ m m', reachable botao m → run botao sched m = Some m' → reachable botao m'.
Proof.
  induction sched as [|a sched IH]; simpl; intros m m' Hr Hrun.
  - by injection Hrun as <-.
  - destruct (sys_step botao a m) as [m1|] eqn:Hs; [| discriminate].
    eapply IH; [| exact Hrun]. eapply reach_step; eauto.
Qed.

Lemma run_app s1 s2 m :
  run botao (s1 ++ s2) m
  = match run botao s1 m with Some m1 => run botao s2 m1 | None => None end.
Proof.
  revert m. induction s1 as [|a s1 IH]; intros m; simpl; [reflexivity |].
  destruct (sys_step botao a m); [apply IH | reflexivity].
Qed.

(** While a sequence is running, iterations of the loop only sleep. *)
Lemma run_loops_active fs :
  ∀ m, sequence_active m = true →
  run botao (map Loop fs) m
  = Some (advance (10 * length fs) 0 (replicate (length fs) (EvSleep 10)) m).
Proof.
  induction fs as [|f fs IH]; intros m Ha; simpl.
  - f_equal. unfold advance. machine_eq. by rewrite app_nil_r.
  - rewrite main_loop_body_active by exact Ha.
    rewrite IH by exact Ha. f_equal. unfold advance. machine_eq.
Qed.

Lemma run_loops_fire fs i m :
  sequence_active m = true →
  run botao (map Loop fs ++ [Fire i]) m
  = fire_alarm i (advance (10 * length fs) 0 (replicate (length fs) (EvSleep 10)) m).
Proof.
  intros Ha. rewrite run_app, run_loops_active by exact Ha. simpl.
  by destruct (fire_alarm _ _).
Qed.

End Steps.

Lemma puts_sleeps n : puts (replicate n (EvSleep 10)) = [].
Proof. induction n as [|n IH]; [reflexivity | exact IH]. Qed.


(** * The debounce routine *)

(** C5: the three outcomes of the debounce routine.  A released first
    sample gives [false] after that single sample.  A pressed first sample
    followed, 50 ms later, by a released one gives [false] after those two
    samples.  Two pressed samples 50 ms apart are followed by samples
    taken every 10 ms while the line reads pressed; the first released
    one, the k-th of the loop, ends the call with [true], 50 + 10 k ms
    after it began. *)
Theorem debounce_poll_cases (botao : nat → bool) (fuel : nat) (m : Machine) :
  (botao (reads m) = true →
   botao_pressionado_debounce botao fuel m
   = Some (false, advance 0 1 [EvGet BOTAO true] m)) ∧
  (botao (reads m) = false → botao (S (reads m)) = true →
   botao_pressionado_debounce botao fuel m
   = Some (false, advance 50 2 [EvGet BOTAO false; EvSleep 50; EvGet BOTAO true] m)) ∧
  (botao (reads m) = false → botao (S (reads m)) = false →
   ∀ k, (∀ j, j < k → botao (reads m + 2 + j) = false) →
        botao (reads m + 2 + k) = true →
        k < fuel →
        botao_pressionado_debounce botao fuel m
        = Some (true,
                advance (50 + 10 * k) (3 + k)
                  ([EvGet BOTAO false; EvSleep 50; EvGet BOTAO false] ++
                   concat (replicate k [EvGet BOTAO false; EvSleep 10]) ++
                   [EvGet BOTAO true]) m)).
Proof.
  split; [| split].
  - apply debounce_released.
  - apply debounce_noise.
  - intros H0 H1 k Hpre Hrel Hk. exact (debounce_click botao fuel m k H0 H1 Hpre Hrel Hk).
Qed.

Lemma debounce_poll_cases_witness :
  botao_pressionado_debounce released_input 0 (main_init boot)
  = Some (false, advance 0 1 [EvGet BOTAO true] (main_init boot)) ∧
  botao_pressionado_debounce noise_input 0 (main_init boot)
  = Some (false, advance 50 2 [EvGet BOTAO false; EvSleep 50; EvGet BOTAO true]
                   (main_init boot)) ∧
  botao_pressionado_debounce click_input 3 (main_init boot)
  = Some (true,
          advance 70 5
            [EvGet BOTAO false; EvSleep 50; EvGet BOTAO false;
             EvGet BOTAO false; EvSleep 10; EvGet BOTAO false; EvSleep 10;
             EvGet BOTAO true] (main_init boot)).
Proof.
  split; [| split].
  - apply (debounce_poll_cases released_input 0 (main_init boot)). reflexivity.
  - apply (debounce_poll_cases noise_input 0 (main_init boot)); reflexivity.
  - apply (debounce_poll_cases click_input 3 (main_init boot)) with (k := 2);
      [reflexivity | reflexivity | | reflexivity | lia].
    intros [|[|j]] Hj; [reflexivity | reflexivity | lia].
Defined.

(** C7: the debounce routine leaves the sequencer and the outputs alone.
    Whenever it returns, with either result, [sequence_active], [step],
    every output latch and the alarm pool are what they were at the call,
    and the calls it logged contain no output write. *)
Theorem debounce_frame (botao : nat → bool) (fuel : nat) (m m' : Machine) (b : bool) :
  botao_pressionado_debounce botao fuel m = Some (b, m') →
  sequence_active m' = sequence_active m ∧
  step m' = step m ∧
  gpio m' = gpio m ∧
  leds m' = leds m ∧
  alarms m' = alarms m ∧
  ∃ evs, trace m' = trace m ++ evs ∧ puts evs = [].
Proof.
  intros (dt & dr & evs & -> & _ & Hnp & _)%debounce_inv.
  repeat split. exists evs. split; [reflexivity | exact (puts_none evs Hnp)].
Qed.

Lemma debounce_frame_witness :
  ∃ m',
    botao_pressionado_debounce click_input 3 (main_init boot) = Some (true, m') ∧
    sequence_active m' = sequence_active (main_init boot) ∧
    step m' = step (main_init boot) ∧
    leds m' = leds (main_init boot) ∧
    alarms m' = alarms (main_init boot).
Proof.
  exists (advance 70 5 (confirm_events ++ poll_events 2) (main_init boot)).
  assert (H : botao_pressionado_debounce click_input 3 (main_init boot)
              = Some (true, advance 70 5 (confirm_events ++ poll_events 2)
                              (main_init boot)))
    by (vm_compute; reflexivity).
  split; [exact H |].
  destruct (debounce_frame click_input 3 (main_init boot) _ true H)
    as (Ha & Hs & _ & Hl & Hal & _).
  exact (conj Ha (conj Hs (conj Hl Hal))).
Defined.

(** C9: once both confirmation samples read pressed, the debounce routine
    returns if and only if some later sample reads released.  If it
    returns, the result is [true] and the call lasted 50 + 10 k ms, k
    being the number of pressed samples the loop saw before the first
    released one; if a later sample reads released the call returns
    [true]; and as long as the loop has only seen pressed samples it has
    not returned, however many there are. *)
Theorem debounce_blocks_until_release (botao : nat → bool) (m : Machine) :
  botao (reads m) = false → botao (S (reads m)) = false →
  ((∃ fuel r, botao_pressionado_debounce botao fuel m = Some r) ↔
   (∃ k, botao (reads m + 2 + k) = true)) ∧
  (∀ fuel r, botao_pressionado_debounce botao fuel m = Some r →
     ∃ k, k < fuel ∧
          (∀ j, j < k → botao (reads m + 2 + j) = false) ∧
          botao (reads m + 2 + k) = true ∧
          fst r = true ∧
          clock (snd r) = clock m + 50 + 10 * k ∧
          reads (snd r) = reads m + 3 + k) ∧
  (∀ k, botao (reads m + 2 + k) = true →
     ∃ m', ∀ fuel, k < fuel →
       botao_pressionado_debounce botao fuel m = Some (true, m')) ∧
  (∀ fuel, (∀ j, j < fuel → botao (reads m + 2 + j) = false) →
     botao_pressionado_debounce botao fuel m = None).
Proof.
  intros H0 H1.
  assert (Hret : ∀ k, botao (reads m + 2 + k) = true →
            ∃ m', ∀ fuel, k < fuel →
              botao_pressionado_debounce botao fuel m = Some (true, m')).
  { intros k Hk.
    destruct (first_release botao k (reads m + 2) Hk) as (k0 & Hle & Hrel & Hpre).
    eexists. intros fuel Hf.
    apply (debounce_click botao fuel m k0 H0 H1 Hpre Hrel). lia. }
  split; [split |].
  - intros (fuel & r & Hd).
    destruct (debounce_confirmed_inv botao fuel m r H0 H1 Hd) as (k & _ & _ & Hk & _).
    eauto.
  - intros (k & Hk). destruct (Hret k Hk) as (m' & Hm').
    exists (S k), (true, m'). apply Hm'. lia.
  - split; [| split].
    + intros fuel r Hd.
      destruct (debounce_confirmed_inv botao fuel m r H0 H1 Hd)
        as (k & Hf & Hpre & Hk & ->).
      exists k. simpl. repeat split; try assumption; lia.
    + exact Hret.
    + intros fuel Hpre. exact (debounce_held botao fuel m H0 H1 Hpre).
Qed.

Lemma debounce_blocks_until_release_witness :
  (∃ m', ∀ fuel, 2 < fuel →
     botao_pressionado_debounce click_input fuel (main_init boot) = Some (true, m')) ∧
  (∀ fuel, botao_pressionado_debounce held_input fuel (main_init boot) = None).
Proof.
  split.
  - destruct (debounce_blocks_until_release click_input (main_init boot) eq_refl eq_refl)
      as (_ & _ & Hret & _).
    exact (Hret 2 eq_refl).
  - intros fuel.
    destruct (debounce_blocks_until_release held_input (main_init boot) eq_refl eq_refl)
      as (_ & _ & _ & Hheld).
    apply Hheld. reflexivity.
Defined.

(** * The sequencer *)

Lemma after_click_step :
  sys_step click_input (Loop 3) (main_init boot) = Some after_click.
Proof. vm_compute. reflexivity. Qed.

Lemma after_click_reachable : reachable click_input after_click.
Proof. exact (reach_step _ _ _ _ (reach_init _) after_click_step). Qed.

Lemma phase_advance (botao : nat → bool) fs m :
  in_phase m →
  ∃ m' evs,
    run botao (map Loop fs ++ [Fire 0]) m = Some m' ∧
    trace m' = trace m ++ evs ∧
    ((step m = 1%Z ∧ in_phase m' ∧ step m' = 2%Z ∧ leds m' = [on; on; off] ∧
      puts evs = put_leds true true false) ∨
     (step m = 2%Z ∧ in_phase m' ∧ step m' = 3%Z ∧ leds m' = [on; off; off] ∧
      puts evs = put_leds true false false) ∨
     (step m = 3%Z ∧ idle m' ∧ leds m' = [off; off; off] ∧
      puts evs = put_leds false false false)).
Proof.
  intros Hph. pose proof Hph as (Hs & Ha & due & Hal).
  rewrite run_loops_fire by exact Ha.
  set (m0 := advance (10 * length fs) 0 (replicate (length fs) (EvSleep 10)) m).
  assert (Hf : fire_alarm 0 m0 = Some (snd (alarm_callback (pop_alarm 0 m0)))).
  { unfold fire_alarm. simpl. by rewrite Hal. }
  destruct (fire_step_effect 0 m0 _ (or_intror Hph) Hf) as (evs & Htr & Hcase).
  eexists _, (replicate (length fs) (EvSleep 10) ++ evs).
  split; [exact Hf | split].
  { rewrite Htr. simpl. by rewrite <- (assoc_L (++)). }
  rewrite puts_app, puts_sleeps. simpl.
  destruct Hcase as [(H1 & H2 & H3 & H4 & H5 & _ & H7)
                    |[(H1 & H2 & H3 & H4 & H5 & _ & H7)
                     |(H1 & H2 & H3 & H4 & H5 & _ & H7)]].
  - left. repeat split; auto.
  - right; left. repeat split; auto.
  - right; right. repeat split; auto.
Qed.

(** C1: in every reachable state [step] is 0, 1, 2 or 3, and it is 0
    exactly when [sequence_active] is false. *)
Theorem phase_active_invariant (botao : nat → bool) (m : Machine) :
  reachable botao m →
  (step m = 0 ∨ step m = 1 ∨ step m = 2 ∨ step m = 3)%Z ∧
  (step m = 0%Z ↔ sequence_active m = false).
Proof.
  intros [(Hs & Ha & _)|(Hs & Ha & _)]%reachable_seq_inv.
  - split; [by left | by split].
  - split; [by right |]. split; [lia | congruence].
Qed.

Lemma phase_active_invariant_witness :
  (step after_click = 0 ∨ step after_click = 1 ∨
   step after_click = 2 ∨ step after_click = 3)%Z ∧
  (step after_click = 0%Z ↔ sequence_active after_click = false).
Proof. exact (phase_active_invariant click_input after_click after_click_reachable). Defined.

(** C2: from idle, an iteration of the loop in which the debounce routine
    reports a click sets [sequence_active], sets [step] to 1 and turns the
    three LEDs on; the next three alarm deliveries, with any number of
    loop iterations in between, give red and blue on with [step] 2, red
    on alone with [step] 3, and everything off with the sequencer idle
    again.  The output writes of the whole run are those four patterns in
    that order and nothing else. *)
Theorem click_runs_full_sequence (botao : nat → bool) (fuel : nat)
    (m m1 : Machine) (fs1 fs2 fs3 : list nat) :
  idle m →
  botao_pressionado_debounce botao fuel m = Some (true, m1) →
  ∃ m2 m3 m4 m5 evs,
    main_loop_body botao fuel m = Some m2 ∧
    (sequence_active m2 = true ∧ step m2 = 1%Z ∧ leds m2 = [on; on; on]) ∧
    run botao (map Loop fs1 ++ [Fire 0]) m2 = Some m3 ∧
    (sequence_active m3 = true ∧ step m3 = 2%Z ∧ leds m3 = [on; on; off]) ∧
    run botao (map Loop fs2 ++ [Fire 0]) m3 = Some m4 ∧
    (sequence_active m4 = true ∧ step m4 = 3%Z ∧ leds m4 = [on; off; off]) ∧
    run botao (map Loop fs3 ++ [Fire 0]) m4 = Some m5 ∧
    (sequence_active m5 = false ∧ step m5 = 0%Z ∧ leds m5 = [off; off; off] ∧
     alarms m5 = []) ∧
    trace m5 = trace m ++ evs ∧
    puts evs = put_leds true true true ++ put_leds true true false ++
               put_leds true false false ++ put_leds false false false.
Proof.
  intros Hidle Hd.
  assert (Hinv : seq_inv m) by (by left).
  assert (Hloop : main_loop_body botao fuel m = Some (sleep_ms 10 (start_sequence m1))).
  { destruct Hidle as (_ & Ha & _). unfold main_loop_body. by rewrite Ha, Hd. }
  destruct (loop_step_effect botao fuel m _ Hinv Hloop) as (e0 & Ht0 & Hcase).
  destruct Hcase as [(Hs & _)|(_ & _ & Hs2 & Ha2 & Hl2 & Hal2 & _ & Hp0)].
  { exfalso. destruct Hidle as (Hs0 & _). rewrite Hs0 in Hs. discriminate Hs. }
  set (m2 := sleep_ms 10 (start_sequence m1)) in *.
  assert (Hph2 : in_phase m2) by (split; [by left | by split]).
  destruct (phase_advance botao fs1 m2 Hph2) as (m3 & e1 & Hr1 & Ht1 & Hc1).
  destruct Hc1 as [(_ & Hph3 & Hs3 & Hl3 & Hp1)|[(Hx & _)|(Hx & _)]];
    [| rewrite Hs2 in Hx; discriminate Hx ..].
  destruct (phase_advance botao fs2 m3 Hph3) as (m4 & e2 & Hr2 & Ht2 & Hc2).
  destruct Hc2 as [(Hx & _)|[(_ & Hph4 & Hs4 & Hl4 & Hp2)|(Hx & _)]];
    [rewrite Hs3 in Hx; discriminate Hx | | rewrite Hs3 in Hx; discriminate Hx].
  destruct (phase_advance botao fs3 m4 Hph4) as (m5 & e3 & Hr3 & Ht3 & Hc3).
  destruct Hc3 as [(Hx & _)|[(Hx & _)|(_ & (Hs5 & Ha5 & Hal5) & Hl5 & Hp3)]];
    [rewrite Hs4 in Hx; discriminate Hx .. |].
  exists m2, m3, m4, m5, (e0 ++ e1 ++ e2 ++ e3).
  split; [exact Hloop |].
  split; [auto |].
  split; [exact Hr1 |].
  split; [destruct Hph3 as (_ & ? & _); auto |].
  split; [exact Hr2 |].
  split; [destruct Hph4 as (_ & ? & _); auto |].
  split; [exact Hr3 |].
  split; [auto |].
  split.
  - rewrite Ht3, Ht2, Ht1, Ht0. by rewrite <- !(assoc_L (++)).
  - rewrite !puts_app, Hp0, Hp1, Hp2, Hp3. reflexivity.
Qed.

Lemma click_runs_full_sequence_witness :
  ∃ m2 m3 m4 m5 evs,
    main_loop_body click_input 3 (main_init boot) = Some m2 ∧
    (sequence_active m2 = true ∧ step m2 = 1%Z ∧ leds m2 = [on; on; on]) ∧
    run click_input (map Loop [0; 0] ++ [Fire 0]) m2 = Some m3 ∧
    (sequence_active m3 = true ∧ step m3 = 2%Z ∧ leds m3 = [on; on; off]) ∧
    run click_input (map Loop [] ++ [Fire 0]) m3 = Some m4 ∧
    (sequence_active m4 = true ∧ step m4 = 3%Z ∧ leds m4 = [on; off; off]) ∧
    run click_input (map Loop [1] ++ [Fire 0]) m4 = Some m5 ∧
    (sequence_active m5 = false ∧ step m5 = 0%Z ∧ leds m5 = [off; off; off] ∧
     alarms m5 = []) ∧
    trace m5 = trace (main_init boot) ++ evs ∧
    puts evs = put_leds true true true ++ put_leds true true false ++
               put_leds true false false ++ put_leds false false false.
Proof.
  assert (Hidle : idle (main_init boot)) by (repeat split).
  assert (Hd : botao_pressionado_debounce click_input 3 (main_init boot)
               = Some (true, advance 70 5 (confirm_events ++ poll_events 2)
                               (main_init boot)))
    by (vm_compute; reflexivity).
  exact (click_runs_full_sequence click_input 3 (main_init boot) _
           [0; 0] [] [1] Hidle Hd).
Defined.

(** C3: while a sequence is running, an iteration of the main loop does
    the same thing whatever the button does: it returns after its 10 ms
    sleep with [sequence_active], [step], the outputs and the alarm pool
    untouched, having written no output and armed no alarm.  Hence any
    number of iterations followed by an alarm delivery ends in the same
    state for every button line. *)
Theorem click_while_active_ignored (botao botao' : nat → bool) (m : Machine) :
  sequence_active m = true →
  (∀ fuel fuel', ∃ m',
     main_loop_body botao fuel m = Some m' ∧
     main_loop_body botao' fuel' m = Some m' ∧
     sequence_active m' = true ∧ step m' = step m ∧
     gpio m' = gpio m ∧ leds m' = leds m ∧ alarms m' = alarms m ∧
     trace m' = trace m ++ [EvSleep 10]) ∧
  (∀ fs fs' i, length fs = length fs' →
     run botao (map Loop fs ++ [Fire i]) m
     = run botao' (map Loop fs' ++ [Fire i]) m).
Proof.
  intros Ha. split.
  - intros fuel fuel'. exists (sleep_ms 10 m).
    rewrite !main_loop_body_active by exact Ha. by repeat split.
  - intros fs fs' i Hlen. rewrite !run_loops_fire by exact Ha. by rewrite Hlen.
Qed.

Lemma click_while_active_ignored_witness :
  (∀ fuel fuel', ∃ m',
     main_loop_body click_input fuel after_click = Some m' ∧
     main_loop_body released_input fuel' after_click = Some m' ∧
     sequence_active m' = true ∧ step m' = step after_click ∧
     gpio m' = gpio after_click ∧ leds m' = leds after_click ∧
     alarms m' = alarms after_click ∧
     trace m' = trace after_click ++ [EvSleep 10]) ∧
  (∀ fs fs' i, length fs = length fs' →
     run click_input (map Loop fs ++ [Fire i]) after_click
     = run released_input (map Loop fs' ++ [Fire i]) after_click).
Proof.
  exact (click_while_active_ignored click_input released_input after_click eq_refl).
Defined.

(** C4, as the code has it: the handler called with [step] equal to 0
    falls through the [switch]; it returns 0 and the machine is exactly
    what it was, so that a delivery in that state only removes the alarm
    from the pool. *)
Theorem alarm_callback_idle_noop (m : Machine) :
  step m = 0%Z →
  alarm_callback m = (0%Z, m) ∧
  ∀ i m', fire_alarm i m = Some m' → m' = pop_alarm i m.
Proof.
  intros Hs. split.
  - unfold alarm_callback. by rewrite Hs.
  - intros i m' [_ ->]%fire_alarm_inv. unfold alarm_callback. simpl. by rewrite Hs.
Qed.

Lemma alarm_callback_idle_noop_witness :
  alarm_callback (main_init boot) = (0%Z, main_init boot) ∧
  ∀ i m', fire_alarm i (main_init boot) = Some m' → m' = pop_alarm i (main_init boot).
Proof. exact (alarm_callback_idle_noop (main_init boot) eq_refl). Defined.

(** C4, counterexample: at start-up [step] is 0, and a call of the handler
    there returns normally, with 0, and changes nothing. *)
Lemma alarm_callback_idle_silent :
  step (main_init boot) = 0%Z ∧
  alarm_callback (main_init boot) = (0%Z, main_init boot).
Proof. split; vm_compute; reflexivity. Qed.

(** C6: the phase only moves along 0, 1, 2, 3, 0.  From a reachable state
    an iteration of the loop leaves [step] as it is or, on a validated
    click with [step] 0, sets it to 1; an alarm delivery takes it from 1
    to 2, from 2 to 3 or from 3 to 0. *)
Theorem phase_succession (botao : nat → bool) (a : action) (m m' : Machine) :
  reachable botao m → sys_step botao a m = Some m' →
  match a with
  | Loop fuel =>
      step m' = step m ∨
      (step m = 0%Z ∧ step m' = 1%Z ∧
       ∃ m1, botao_pressionado_debounce botao fuel m = Some (true, m1))
  | Fire _ =>
      (step m = 1%Z ∧ step m' = 2%Z) ∨
      (step m = 2%Z ∧ step m' = 3%Z) ∨
      (step m = 3%Z ∧ step m' = 0%Z)
  end.
Proof.
  intros Hinv%reachable_seq_inv Hstep. destruct a as [fuel|i]; simpl in Hstep.
  - destruct (loop_step_effect botao fuel m m' Hinv Hstep)
      as (evs & _ & [(Hs & _)|((Hs & _) & Hd & Hs' & _)]); auto.
  - destruct (fire_step_effect i m m' Hinv Hstep)
      as (evs & _ & [(? & ? & _)|[(? & ? & _)|(? & ? & _)]]); auto.
Qed.

Lemma phase_succession_witness :
  step after_click = step (main_init boot) ∨
  (step (main_init boot) = 0%Z ∧ step after_click = 1%Z ∧
   ∃ m1, botao_pressionado_debounce click_input 3 (main_init boot) = Some (true, m1)).
Proof.
  exact (phase_succession click_input (Loop 3) (main_init boot) after_click
           (reach_init _) after_click_step).
Defined.

(** C8: in every reachable state the alarm pool holds one alarm if
    [sequence_active] is set and none otherwise.  A step from such a state
    arms exactly one alarm when it takes [step] from 0 to 1, from 1 to 2
    or from 2 to 3, and none when it takes [step] from 3 to 0 or leaves it
    unchanged. *)
Theorem one_alarm_pending (botao : nat → bool) (m : Machine) :
  reachable botao m →
  length (alarms m) = (if sequence_active m then 1 else 0) ∧
  ∀ a m', sys_step botao a m = Some m' →
    ∃ evs, trace m' = trace m ++ evs ∧
      ((alarms_armed evs = 1 ∧
        ((step m = 0%Z ∧ step m' = 1%Z) ∨ (step m = 1%Z ∧ step m' = 2%Z) ∨
         (step m = 2%Z ∧ step m' = 3%Z))) ∨
       (alarms_armed evs = 0 ∧
        (step m' = step m ∨ (step m = 3%Z ∧ step m' = 0%Z)))).
Proof.
  intros Hinv%reachable_seq_inv. split.
  - destruct Hinv as [(_ & -> & ->)|(_ & -> & due & ->)]; reflexivity.
  - intros [fuel|i] m' Hstep; simpl in Hstep.
    + destruct (loop_step_effect botao fuel m m' Hinv Hstep)
        as (evs & Ht & [(Hs & _ & _ & _ & Hn & _)
                       |((Hs & _) & _ & Hs' & _ & _ & _ & Hn & _)]);
        exists evs; (split; [exact Ht |]); [right | left]; auto.
    + destruct (fire_step_effect i m m' Hinv Hstep)
        as (evs & Ht & [(? & ? & _ & _ & _ & Hn & _)
                       |[(? & ? & _ & _ & _ & Hn & _)
                        |(? & ? & _ & _ & _ & Hn & _)]]);
        exists evs; (split; [exact Ht |]); [left | left | right]; auto.
Qed.

Lemma one_alarm_pending_witness :
  length (alarms after_click) = (if sequence_active after_click then 1 else 0) ∧
  ∀ a m', sys_step click_input a after_click = Some m' →
    ∃ evs, trace m' = trace after_click ++ evs ∧
      ((alarms_armed evs = 1 ∧
        ((step after_click = 0%Z ∧ step m' = 1%Z) ∨
         (step after_click = 1%Z ∧ step m' = 2%Z) ∨
         (step after_click = 2%Z ∧ step m' = 3%Z))) ∨
       (alarms_armed evs = 0 ∧
        (step m' = step after_click ∨ (step after_click = 3%Z ∧ step m' = 0%Z)))).
Proof. exact (one_alarm_pending click_input after_click after_click_reachable). Defined.

(** C10: while [sequence_active] is set the button is not sampled.  An
    iteration of the main loop then returns after its 10 ms sleep without
    entering the debounce routine, whatever the bound on the release loop;
    and no step of the system taken from such a state, loop iteration or
    alarm delivery, contains a call of [gpio_get]. *)
Theorem no_sampling_while_active (botao : nat → bool) (m : Machine) :
  sequence_active m = true →
  (∀ fuel, main_loop_body botao fuel m = Some (sleep_ms 10 m)) ∧
  (∀ a m', sys_step botao a m = Some m' →
     reads m' = reads m ∧ ∃ evs, trace m' = trace m ++ evs ∧ gets evs = []).
Proof.
  intros Ha. split; [intros fuel; by apply main_loop_body_active |].
  intros [fuel|i] m' Hstep; simpl in Hstep.
  - rewrite main_loop_body_active in Hstep by exact Ha. injection Hstep as <-.
    split; [reflexivity |]. by exists [EvSleep 10].
  - apply fire_alarm_inv in Hstep as [_ ->].
    destruct (alarm_callback_cases (pop_alarm i m))
      as [[_ ->]|[[_ ->]|[[_ ->]|(_ & _ & _ & ->)]]]; simpl;
      (split; [reflexivity |]).
    + eexists. split; [reflexivity | reflexivity].
    + eexists. split; [reflexivity | reflexivity].
    + eexists. split; [reflexivity | reflexivity].
    + exists []. split; [by rewrite app_nil_r | reflexivity].
Qed.

Lemma no_sampling_while_active_witness :
  (∀ fuel, main_loop_body click_input fuel after_click = Some (sleep_ms 10 after_click)) ∧
  (∀ a m', sys_step click_input a after_click = Some m' →
     reads m' = reads after_click ∧
     ∃ evs, trace m' = trace after_click ++ evs ∧ gets evs = []).
Proof. exact (no_sampling_while_active click_input after_click eq_refl). Defined.

(** * Further properties of the program *)

(** ** Shape of a step, in any state *)

Lemma sys_step_shape (botao : nat → bool) a m m' :
  sys_step botao a m = Some m' →
  (∃ fuel dt dr evs, a = Loop fuel ∧
     m' = advance (dt + 10) dr (evs ++ [EvSleep 10]) m) ∨
  (∃ fuel dt dr evs, a = Loop fuel ∧ sequence_active m = false ∧
     m' = sleep_ms 10 (start_sequence (advance dt dr evs m))) ∨
  (∃ i, a = Fire i ∧ is_Some (alarms m !! i) ∧
     m' = snd (alarm_callback (pop_alarm i m))).
Proof.
  destruct a as [fuel|i]; simpl; intros Hstep.
  - destruct (sequence_active m) eqn:Ha.
    + rewrite main_loop_body_active in Hstep by exact Ha. injection Hstep as <-.
      left. exists fuel, 0, 0, []. split; [reflexivity |].
      unfold advance. machine_eq.
    + apply main_loop_body_idle_inv in Hstep as (b & m1 & Hd & ->); [| exact Ha].
      apply debounce_inv in Hd as (dt & dr & evs & -> & _).
      destruct b.
      * right; left. exists fuel, dt, dr, evs. auto.
      * left. exists fuel, dt, dr, evs. split; [reflexivity |].
        unfold advance. machine_eq.
  - right; right. exists i. apply fire_alarm_inv in Hstep as [Hi ->]. auto.
Qed.

(** The result of the debounce routine is settled by the two
    confirmation samples. *)
Lemma debounce_result (botao : nat → bool) fuel m b m' :
  botao_pressionado_debounce botao fuel m = Some (b, m') →
  b = negb (botao (reads m)) && negb (botao (S (reads m))).
Proof.
  intros Hd.
  destruct (botao (reads m)) eqn:H0.
  { rewrite debounce_released in Hd by exact H0. by injection Hd as <- _. }
  destruct (botao (S (reads m))) eqn:H1.
  { rewrite debounce_noise in Hd by assumption. by injection Hd as <- _. }
  destruct (debounce_confirmed_inv botao fuel m _ H0 H1 Hd) as (k & _ & _ & _ & Hr).
  by injection Hr as -> _.
Qed.

Lemma sys_step_gpio (botao : nat → bool) a m m' :
  sys_step botao a m = Some m' →
  gpio m' = gpio m ∨
  ∃ x y z, gpio m'
           = <[LED_VERDE := z]> (<[LED_AZUL := y]> (<[LED_VERMELHO := x]> (gpio m))).
Proof.
  intros [(fuel & dt & dr & evs & _ & ->)
         |[(fuel & dt & dr & evs & _ & _ & ->)
          |(i & _ & _ & ->)]]%sys_step_shape.
  - by left.
  - right. rewrite start_sequence_eq. simpl. eauto.
  - destruct (alarm_callback_cases (pop_alarm i m))
      as [[_ ->]|[[_ ->]|[[_ ->]|(_ & _ & _ & ->)]]]; simpl; eauto.
Qed.

(** ** Outputs *)

(** X1: in every reachable state the three LEDs show the pattern of the
    current phase: all off for 0, all on for 1, red and blue for 2, red
    alone for 3. *)
Theorem leds_follow_phase (botao : nat → bool) (m : Machine) :
  reachable botao m → leds m = phase_pattern (step m).
Proof.
  induction 1 as [|a m m' Hr IH Hstep]; [vm_compute; reflexivity |].
  pose proof (reachable_seq_inv botao m Hr) as Hinv.
  destruct a as [fuel|i]; simpl in Hstep.
  - destruct (loop_step_effect botao fuel m m' Hinv Hstep)
      as (evs & _ & [(Hs & _ & Hg & _)|(_ & _ & Hs & _ & Hl & _)]).
    + rewrite Hs, <- IH. unfold leds. by rewrite Hg.
    + by rewrite Hs, Hl.
  - destruct (fire_step_effect i m m' Hinv Hstep)
      as (evs & _ & [(_ & Hs & _ & Hl & _)|[(_ & Hs & _ & Hl & _)|(_ & Hs & _ & Hl & _)]]);
      by rewrite Hs, Hl.
Qed.

Lemma leds_follow_phase_witness : leds after_click = phase_pattern (step after_click).
Proof. exact (leds_follow_phase click_input after_click after_click_reachable). Defined.

(** X2: in every reachable state the pins that have been written are the
    three LED pins and no other; in particular the button pin is never
    driven. *)
Theorem only_led_pins_driven (botao : nat → bool) (m : Machine) :
  reachable botao m → dom (gpio m) = led_pins ∧ gpio m !! BOTAO = None.
Proof.
  intros Hr.
  assert (Hdom : dom (gpio m) = led_pins).
  { induction Hr as [|a m m' Hr IH Hstep]; [vm_compute; reflexivity |].
    destruct (sys_step_gpio botao a m m' Hstep) as [->|(x & y & z & ->)]; [exact IH |].
    rewrite !dom_insert_L, IH. unfold led_pins. set_solver. }
  split; [exact Hdom |].
  apply not_elem_of_dom. rewrite Hdom.
  unfold led_pins, LED_VERMELHO, LED_AZUL, LED_VERDE, BOTAO.
  rewrite !not_elem_of_union, !not_elem_of_singleton. lia.
Qed.

Lemma only_led_pins_driven_witness :
  dom (gpio after_click) = led_pins ∧ gpio after_click !! BOTAO = None.
Proof. exact (only_led_pins_driven click_input after_click after_click_reachable). Defined.

(** ** The debounce routine *)

(** X3: what the debounce routine returns is settled by its first two
    samples: any result is [true] exactly if both read pressed.  If either
    reads released the routine returns [false] without entering the
    release loop, after at most two samples and 50 ms, so a rejected
    bounce never blocks the caller. *)
Theorem debounce_settled_by_two_samples (botao : nat → bool) (fuel : nat)
    (m : Machine) :
  (∀ b m', botao_pressionado_debounce botao fuel m = Some (b, m') →
     b = negb (botao (reads m)) && negb (botao (S (reads m)))) ∧
  (botao (reads m) = true ∨ botao (S (reads m)) = true →
   ∃ m', botao_pressionado_debounce botao fuel m = Some (false, m') ∧
         clock m' ≤ clock m + 50 ∧ reads m' ≤ reads m + 2 ∧
         ∀ fuel', botao_pressionado_debounce botao fuel' m = Some (false, m')).
Proof.
  split; [intros b m'; apply debounce_result |].
  intros Hrel. destruct (botao (reads m)) eqn:H0.
  - eexists. split; [by apply debounce_released |].
    split; [simpl; lia | split; [simpl; lia |]].
    intros fuel'. by apply debounce_released.
  - destruct Hrel as [Hx|H1]; [discriminate Hx |].
    eexists. split; [by apply debounce_noise |].
    split; [simpl; lia | split; [simpl; lia |]].
    intros fuel'. by apply debounce_noise.
Qed.

Lemma debounce_settled_by_two_samples_witness :
  ∃ m', botao_pressionado_debounce noise_input 0 (main_init boot) = Some (false, m') ∧
        clock m' ≤ clock (main_init boot) + 50 ∧
        reads m' ≤ reads (main_init boot) + 2 ∧
        ∀ fuel', botao_pressionado_debounce noise_input fuel' (main_init boot)
                 = Some (false, m').
Proof.
  destruct (debounce_settled_by_two_samples noise_input 0 (main_init boot)) as [_ H].
  exact (H (or_intror eq_refl)).
Defined.

(** ** The alarm handler *)

(** X4: the alarm handler never waits and never looks at the button: in
    any state it returns 0 with the clock and the sample count as they
    were, and the calls it logs contain no [sleep_ms] and no [gpio_get]. *)
Theorem alarm_callback_never_blocks (m : Machine) :
  fst (alarm_callback m) = 0%Z ∧
  clock (snd (alarm_callback m)) = clock m ∧
  reads (snd (alarm_callback m)) = reads m ∧
  ∃ evs, trace (snd (alarm_callback m)) = trace m ++ evs ∧
         sleeps evs = [] ∧ gets evs = [].
Proof.
  destruct (alarm_callback_cases m)
    as [[_ ->]|[[_ ->]|[[_ ->]|(_ & _ & _ & ->)]]]; simpl;
    (split; [reflexivity |]); (split; [reflexivity |]); (split; [reflexivity |]).
  - eexists. split; [reflexivity | split; reflexivity].
  - eexists. split; [reflexivity | split; reflexivity].
  - eexists. split; [reflexivity | split; reflexivity].
  - exists []. split; [by rewrite app_nil_r | split; reflexivity].
Qed.

(** X5: the handler acts on the values 1, 2 and 3 of [step] and on no
    other: it leaves the machine exactly as it was if and only if [step]
    is none of the three, be it 0, negative or above 3. *)
Theorem alarm_callback_acts_iff (m : Machine) :
  alarm_callback m = (0%Z, m) ↔ (step m ≠ 1 ∧ step m ≠ 2 ∧ step m ≠ 3)%Z.
Proof.
  assert (Hgrow : ∀ act st a b c msg arm,
            phase_update act st a b c msg arm m ≠ m).
  { intros act st a b c msg arm Heq.
    apply (f_equal trace), (f_equal length) in Heq.
    rewrite trace_phase_update, !length_app in Heq. simpl in Heq. lia. }
  destruct (alarm_callback_cases m)
    as [[Hs ->]|[[Hs ->]|[[Hs ->]|(H1 & H2 & H3 & ->)]]].
  - split; [intros [= Heq]; by apply Hgrow in Heq | intros (? & _); lia].
  - split; [intros [= Heq]; by apply Hgrow in Heq | intros (_ & ? & _); lia].
  - split; [intros [= Heq]; by apply Hgrow in Heq | intros (_ & _ & ?); lia].
  - split; auto.
Qed.

(** ** Alarms *)





(** X7: in a reachable state an alarm can be delivered exactly when a
    sequence is running, and then it is the only one in the pool: no
    delivery is possible while idle, and none at any index but 0. *)
Theorem delivery_enabled_iff (botao : nat → bool) (m : Machine) (i : nat) :
  reachable botao m →
  (is_Some (fire_alarm i m) ↔ i = 0 ∧ sequence_active m = true).
Proof.
  intros [Hidle|Hph]%reachable_seq_inv.
  - rewrite fire_alarm_idle by exact Hidle. destruct Hidle as (_ & Ha & _).
    split; [intros [x Hx]; discriminate Hx | intros [_ Hx]; congruence].
  - pose proof Hph as (_ & Ha & due & Hal). split.
    + intros [m' Hf]. destruct (fire_alarm_in_phase i m m' Hph Hf) as [-> _]. auto.
    + intros [-> _]. unfold fire_alarm. rewrite Hal. simpl. eauto.
Qed.

Lemma delivery_enabled_iff_witness :
  is_Some (fire_alarm 0 after_click) ↔ 0 = 0 ∧ sequence_active after_click = true.
Proof. exact (delivery_enabled_iff click_input after_click 0 after_click_reachable). Defined.

(** ** Runs *)





Lemma quiet_line_stays_idle (botao : nat → bool) :
  (∀ k, botao k = true ∨ botao (S k) = true) →
  ∀ m, reachable botao m → idle m ∧ leds m = [off; off; off].
Proof.
  intros Hb m Hr.
  induction Hr as [|a m m' _ [Hidle Hl] Hstep].
  - split; [repeat split | vm_compute; reflexivity].
  - destruct a as [fuel|i]; simpl in Hstep; [| by rewrite fire_alarm_idle in Hstep].
    pose proof Hidle as (Hs & Ha & Hal).
    apply main_loop_body_idle_inv in Hstep as (b & m1 & Hd & ->); [| exact Ha].
    pose proof (debounce_result botao fuel m b m1 Hd) as Hbv.
    apply debounce_inv in Hd as (dt & dr & evs & -> & _).
    assert (b = false) as ->.
    { rewrite Hbv. destruct (Hb (reads m)) as [-> | ->]; [reflexivity |].
      apply andb_false_r. }
    split; [by repeat split | exact Hl].
Qed.

(** X9: without two consecutive pressed samples no sequence ever starts:
    if of any two successive samples of the button line at least one
    reads released, every reachable state is idle with the three LEDs off,
    and every iteration of the main loop completes, whatever the bound on
    the release loop. *)
Theorem no_press_no_sequence (botao : nat → bool) (m : Machine) :
  (∀ k, botao k = true ∨ botao (S k) = true) →
  reachable botao m →
  idle m ∧ leds m = [off; off; off] ∧
  ∀ fuel, ∃ m', main_loop_body botao fuel m = Some m' ∧ idle m'.
Proof.
  intros Hb Hr.
  destruct (quiet_line_stays_idle botao Hb m Hr) as [Hidle Hl].
  split; [exact Hidle | split; [exact Hl |]].
  intros fuel. pose proof Hidle as (_ & Ha & _).
  assert (Hd : ∃ m1, botao_pressionado_debounce botao fuel m = Some (false, m1)).
  { destruct (botao (reads m)) eqn:H0; [rewrite debounce_released by exact H0; eauto |].
    destruct (Hb (reads m)) as [Hx|H1]; [congruence |].
    rewrite debounce_noise by assumption. eauto. }
  destruct Hd as (m1 & Hd).
  assert (Hloop : main_loop_body botao fuel m = Some (sleep_ms 10 m1)).
  { unfold main_loop_body. by rewrite Ha, Hd. }
  exists (sleep_ms 10 m1). split; [exact Hloop |].
  exact (proj1 (quiet_line_stays_idle botao Hb _
                  (reach_step botao (Loop fuel) m _ Hr Hloop))).
Qed.

Lemma no_press_no_sequence_witness :
  idle (main_init boot) ∧ leds (main_init boot) = [off; off; off] ∧
  ∀ fuel, ∃ m', main_loop_body noise_input fuel (main_init boot) = Some m' ∧ idle m'.
Proof.
  refine (no_press_no_sequence noise_input (main_init boot) _ (reach_init _)).
  intros [|k]; [right | left]; reflexivity.
Defined.

Lemma loops_in_cons a sched :
  loops_in (a :: sched) = (if is_loop a then 1 else 0) + loops_in sched.
Proof. unfold loops_in. simpl. by destruct (is_loop a). Qed.

Lemma sys_step_time (botao : nat → bool) a m m' :
  sys_step botao a m = Some m' →
  clock m + (if is_loop a then 10 else 0) ≤ clock m' ∧ reads m ≤ reads m' ∧
  (is_loop a = false → clock m' = clock m ∧ reads m' = reads m).
Proof.
  intros [(fuel & dt & dr & evs & -> & ->)
         |[(fuel & dt & dr & evs & -> & _ & ->)
          |(i & -> & _ & ->)]]%sys_step_shape.
  - simpl. split; [lia | split; [lia | discriminate]].
  - rewrite start_sequence_eq. simpl. split; [lia | split; [lia | discriminate]].
  - destruct (alarm_callback_cases (pop_alarm i m))
      as [[_ ->]|[[_ ->]|[[_ ->]|(_ & _ & _ & ->)]]]; simpl;
      (split; [lia | split; [lia | auto]]).
Qed.

(** X10: time only passes in the main loop, and every iteration takes at
    least 10 ms: along any run the clock advances by at least 10 ms per
    loop iteration in the schedule and the sample count never decreases,
    while a run made of alarm deliveries only leaves both unchanged. *)
Theorem run_takes_time (botao : nat → bool) (sched : list action) (m m' : Machine) :
  run botao sched m = Some m' →
  clock m + 10 * loops_in sched ≤ clock m' ∧ reads m ≤ reads m' ∧
  (loops_in sched = 0 → clock m' = clock m ∧ reads m' = reads m).
Proof.
  revert m. induction sched as [|a sched IH]; simpl; intros m Hrun.
  - injection Hrun as <-. unfold loops_in. simpl. repeat split; lia.
  - destruct (sys_step botao a m) as [m1|] eqn:Hstep; [| discriminate Hrun].
    destruct (sys_step_time botao a m m1 Hstep) as (Hc & Hrd & Hq).
    destruct (IH m1 Hrun) as (Hc' & Hrd' & Hq').
    rewrite loops_in_cons. destruct (is_loop a).
    + split; [lia | split; [lia | intros Hx; discriminate Hx]].
    + destruct (Hq eq_refl) as [Hc1 Hr1].
      split; [lia | split; [lia |]].
      intros H0. destruct (Hq' H0) as [Hc2 Hr2]. split; congruence.
Qed.

Lemma run_takes_time_witness :
  clock (main_init boot) + 10 * loops_in [Loop 3] ≤ clock after_click ∧
  reads (main_init boot) ≤ reads after_click ∧
  (loops_in [Loop 3] = 0 →
   clock after_click = clock (main_init boot) ∧ reads after_click = reads (main_init boot)).
Proof.
  assert (H : run click_input [Loop 3] (main_init boot) = Some after_click)
    by (vm_compute; reflexivity).
  exact (run_takes_time click_input [Loop 3] (main_init boot) after_click H).
Defined.
